(** * pytorch_lightning/utilities/apply_func.py

    A shallow embedding of [apply_to_collection] and
    [transfer_batch_to_device], and the properties of the collection mapper
    that the specification states about them.

    Python objects are modelled as finite trees tagged with the name of their
    class.  The callable handed to [apply_to_collection] may touch arbitrary
    state and may raise, so it lives in a state-and-exception monad; the
    classes of the running program (subclass relation, [_fields] attribute,
    constructors) are a parameter of the development, and the built-in
    classes get a concrete instance in [Module Python]. *)

From Stdlib Require Import String ZArith List Lia.
Import ListNotations.

Set Implicit Arguments.
Set Warnings "-register-all".

Open Scope string_scope.
Open Scope list_scope.

(** ** Python values *)

(** A class is referred to by its name. *)
Definition cls := string.

(** A compute device, as [torch.device] prints it. *)
Definition device := string.

(** Hashable keys of a mapping. *)
Inductive key : Type :=
| KStr (s : string)
| KInt (n : Z).

(** What an object that is neither a string nor a collection carries. *)
Inductive payload : Type :=
| PNone
| PInt (n : Z)
| PTensor (dev : device) (storage : list Z).

(** The constructor tells which of the structural tests of the source the
    object passes:
    - [PyMapping]: [isinstance(data, Mapping)]; [items] is [data.items()];
    - [PyTuple]: [isinstance(data, tuple)], plain or named; [elems] is what
      iterating it yields;
    - [PySequence]: [isinstance(data, Sequence)], neither a tuple nor a string
      ([list], [range], ...);
    - [PyStr]: [isinstance(data, str)];
    - [PyObj]: everything else ([int], [None], [torch.Tensor], ...).
    The class name [c] is [type(data)]. *)
Inductive value : Type :=
| PyObj (c : cls) (p : payload)
| PyStr (c : cls) (s : string)
| PyMapping (c : cls) (items : list (key * value))
| PyTuple (c : cls) (elems : list value)
| PySequence (c : cls) (elems : list value).

(** [type(data)] *)
Definition type_ (data : value) : cls :=
  match data with
  | PyObj c _ | PyStr c _ | PyMapping c _ | PyTuple c _ | PySequence c _ => c
  end.

(** The second argument of [isinstance]: a type or a tuple of types. *)
Inductive dtype : Type :=
| OneType (t : cls)
| TypeTuple (ts : list cls).

(** A raised exception: its class and its message. *)
Record exn : Type := Exn { exn_class : string; exn_msg : string }.

(** How a call ends. *)
Inductive outcome (A : Type) : Type :=
| Returned (a : A)
| Raised (e : exn).
Arguments Returned {A} a.
Arguments Raised {A} e.

(** ** Keys *)

Definition key_eqb (k1 k2 : key) : bool :=
  match k1, k2 with
  | KStr a, KStr b => String.eqb a b
  | KInt a, KInt b => Z.eqb a b
  | _, _ => false
  end.

(** [d[k] = v] on a dict kept as its items in insertion order: an existing key
    keeps its place and gets the new value, a new key goes last. *)
Fixpoint dict_setitem (d : list (key * value)) (k : key) (v : value)
  : list (key * value) :=
  match d with
  | [] => [(k, v)]
  | (k', v') :: rest =>
      if key_eqb k' k then (k', v) :: rest
      else (k', v') :: dict_setitem rest k v
  end.

(** The dict a comprehension [{k: e for ...}] builds from the pairs it goes
    through. *)
Definition dict_of (pairs : list (key * value)) : list (key * value) :=
  fold_left (fun d kv => dict_setitem d (fst kv) (snd kv)) pairs [].

(** ** The state-and-exception monad of Python calls *)

Section Monad.
Variable St : Type.

Definition M (A : Type) : Type := St -> outcome A * St.

Definition ret {A} (a : A) : M A := fun s => (Returned a, s).

Definition bind {A B} (m : M A) (k : A -> M B) : M B :=
  fun s =>
    match m s with
    | (Returned a, s') => k a s'
    | (Raised e, s') => (Raised e, s')
    end.

(** A call that touches no state. *)
Definition pure_call {A} (o : outcome A) : M A := fun s => (o, s).

(** [[g(x) for x in xs]]: the calls are made from left to right and the
    first exception ends the loop. *)
Definition for_each {A B} (g : A -> M B) : list A -> M (list B) :=
  fix loop (xs : list A) : M (list B) :=
    match xs with
    | [] => ret []
    | x :: rest =>
        bind (g x) (fun y => bind (loop rest) (fun ys => ret (y :: ys)))
    end.
End Monad.

Arguments ret {St A} a _.
Arguments pure_call {St A} o _.

Declare Scope py_scope.
Delimit Scope py_scope with py.
Notation "x <- m ;; k" := (bind m (fun x => k))
  (at level 100, m at next level, right associativity) : py_scope.
Open Scope py_scope.

(** ** The collection mapper *)

(** The classes of the running program, as far as the module consults them. *)
Record classes : Type := Classes {
  (** [issubclass(c, t)], abstract base classes included *)
  issubclass : cls -> cls -> bool;
  (** [hasattr(data, '_fields')], a property of the class of [data] *)
  has_fields : cls -> bool;
  (** calling the class on positional arguments *)
  construct : cls -> list value -> outcome value
}.

Section ApplyFunc.
Variable St : Type.
Variable env : classes.

Definition isinstance (data : value) (d : dtype) : bool :=
  match d with
  | OneType t => issubclass env (type_ data) t
  | TypeTuple ts => existsb (issubclass env (type_ data)) ts
  end.

(** A callable taking the element, [*args] and [**kwargs]. *)
Definition callable : Type :=
  value -> list value -> list (string * value) -> M St value.

Section Body.
Variable dtype_ : dtype.
Variable function : callable.
Variable args : list value.
Variable kwargs : list (string * value).

(** The body of [apply_to_collection], its recursive calls going
    through [self]. *)
Definition apply_body (self : value -> M St value) (data : value)
  : M St value :=
  let elem_type := type_ data in
  if isinstance data dtype_ then function data args kwargs
  else
    match data with
    | PyMapping _ items =>
        out <- for_each (fun kv => v <- self (snd kv) ;; ret (fst kv, v))
                        items ;;
        pure_call
          (construct env elem_type [PyMapping "dict" (dict_of out)])
    | PyTuple _ elems =>
        if has_fields env elem_type then
          out <- for_each self elems ;;
          pure_call (construct env elem_type out)
        else
          out <- for_each self elems ;;
          pure_call (construct env elem_type [PySequence "list" out])
    | PySequence _ elems =>
        out <- for_each self elems ;;
        pure_call (construct env elem_type [PySequence "list" out])
    | PyStr _ _ | PyObj _ _ => ret data
    end.

Fixpoint apply_to_collection (data : value) : M St value :=
  apply_body apply_to_collection data.
End Body.

(** [tensor.to(device, non_blocking=...)], a capability of the tensor
    library. *)
Variable tensor_to : value -> device -> bool -> M St value.

(** The local function [to] of [transfer_batch_to_device]: it takes the
    tensor and nothing else. *)
Definition to (dev : device) : callable :=
  fun tensor args kwargs =>
    match args, kwargs with
    | [], [] => tensor_to tensor dev true
    | _, _ =>
        pure_call
          (Raised (Exn "TypeError" "to() takes 1 positional argument"))
    end.

Definition transfer_batch_to_device (batch : value) (dev : device)
  : M St value :=
  apply_to_collection (OneType "Tensor") (to dev) [] [] batch.
End ApplyFunc.

(** ** The built-in classes

    A concrete [classes] for programs made of Python's built-in collections,
    [collections.OrderedDict], [collections.defaultdict], [torch.Tensor] and
    the named tuples the program declares. *)

Module Python.

(** How a class answers a call. *)
Inductive new_kind : Type :=
| NewDict                              (* dict(mapping) *)
| NewDefaultDict                       (* defaultdict(default_factory, mapping) *)
| NewList                              (* list(iterable) *)
| NewTuple                             (* tuple(iterable) *)
| NewNamedTuple (fields : list string) (* one positional argument per field *)
| NewRange                             (* range(stop), range(start, stop) *)
| NewOther.                            (* not a collection class *)

Record class_decl : Type := Class {
  bases : list cls;   (* every class it is a subclass of, itself left out *)
  new : new_kind
}.

Definition program : Type := list (cls * class_decl).

(** The abstract base classes of [collections.abc] and [numbers] that the
    built-in classes are subclasses of (Python 3.8 and 3.9, the last versions
    on which the module's [from collections import Mapping] works). *)
Definition abc_sized : list cls := ["Sized"; "Iterable"; "Container"].
Definition abc_collection : list cls := "Collection" :: abc_sized.
Definition abc_sequence : list cls :=
  "Sequence" :: "Reversible" :: abc_collection.
Definition abc_mapping : list cls :=
  "MutableMapping" :: "Mapping" :: "Reversible" :: abc_collection.
Definition abc_integral : list cls :=
  ["Integral"; "Rational"; "Real"; "Complex"; "Number"; "Hashable"].

Definition builtins : program :=
  [ ("object", Class ["Hashable"] NewOther);
    ("NoneType", Class ["Hashable"; "object"] NewOther);
    ("int", Class (abc_integral ++ ["object"]) NewOther);
    ("bool", Class ("int" :: abc_integral ++ ["object"]) NewOther);
    ("str", Class (abc_sequence ++ ["Hashable"; "object"]) NewOther);
    ("Tensor", Class ("Hashable" :: abc_collection ++ ["object"]) NewOther);
    ("dict", Class (abc_mapping ++ ["object"]) NewDict);
    ("OrderedDict", Class ("dict" :: abc_mapping ++ ["object"]) NewDict);
    ("defaultdict",
      Class ("dict" :: abc_mapping ++ ["object"]) NewDefaultDict);
    ("list", Class ("MutableSequence" :: abc_sequence ++ ["object"]) NewList);
    ("tuple", Class (abc_sequence ++ ["Hashable"; "object"]) NewTuple);
    ("range", Class (abc_sequence ++ ["Hashable"; "object"]) NewRange) ].

(** [collections.namedtuple(typename, field_names)] *)
Definition namedtuple (typename : cls) (field_names : list string)
  : cls * class_decl :=
  (typename,
   Class ("tuple" :: abc_sequence ++ ["Hashable"; "object"])
         (NewNamedTuple field_names)).

Fixpoint lookup (p : program) (c : cls) : option class_decl :=
  match p with
  | [] => None
  | (c', d) :: rest => if String.eqb c' c then Some d else lookup rest c
  end.

Definition py_issubclass (p : program) (c t : cls) : bool :=
  String.eqb c t || String.eqb t "object" ||
  match lookup p c with
  | Some d => existsb (String.eqb t) (bases d)
  | None => false
  end.

Definition py_has_fields (p : program) (c : cls) : bool :=
  match lookup p c with
  | Some (Class _ (NewNamedTuple _)) => true
  | _ => false
  end.

(** [TypeError(msg)]; the messages are Python's, but for the arity error of
    a named tuple, which is shortened. *)
Definition type_error (msg : string) : outcome value :=
  Raised (Exn "TypeError" msg).

(** Calls of a shape the mapper never makes, and calls of classes that are
    not in the table, are outside this model; they are answered with this
    marker. *)
Definition not_modelled : outcome value :=
  Raised (Exn "NotModelled" "call outside the modelled call shapes").

(** [TypeError: 'c' object is not iterable] *)
Definition not_iterable (c : cls) : outcome value :=
  type_error ("'" ++ c ++ "' object is not iterable")%string.

(** [range(start, stop)] for [n = stop - start] *)
Fixpoint range_from (n : nat) (start : Z) : list value :=
  match n with
  | O => []
  | S k => PyObj "int" (PInt start) :: range_from k (start + 1)
  end.

(** The class of the first argument that is not an integer. *)
Fixpoint first_non_int (args : list value) : option cls :=
  match args with
  | [] => None
  | PyObj _ (PInt _) :: rest => first_non_int rest
  | x :: _ => Some (type_ x)
  end.

(** [range] called on positional arguments *)
Definition range_new (c : cls) (args : list value) : outcome value :=
  match args with
  | [] => type_error "range expected at least 1 argument, got 0"
  | _ :: _ :: _ :: _ :: _ => type_error "range expected at most 3 arguments"
  | _ =>
      match first_non_int args with
      | Some t =>
          type_error
            ("'" ++ t ++ "' object cannot be interpreted as an integer")%string
      | None =>
          match args with
          | [PyObj _ (PInt stop)] =>
              Returned (PySequence c (range_from (Z.to_nat stop) 0))
          | [PyObj _ (PInt start); PyObj _ (PInt stop)] =>
              Returned
                (PySequence c (range_from (Z.to_nat (stop - start)) start))
          | _ => not_modelled
          end
      end
  end.

Definition py_construct (p : program) (c : cls) (args : list value)
  : outcome value :=
  match lookup p c with
  | None => not_modelled
  | Some d =>
      match new d, args with
      | NewDict, [] => Returned (PyMapping c [])
      | NewDict, [PyMapping _ items] => Returned (PyMapping c items)
      | NewDict, [PyObj t (PNone | PInt _)] => not_iterable t
      | NewDict, _ => not_modelled
      | NewDefaultDict, [] => Returned (PyMapping c [])
      | NewDefaultDict, [PyObj _ PNone] => Returned (PyMapping c [])
      | NewDefaultDict, [PyObj _ PNone; PyMapping _ items] =>
          Returned (PyMapping c items)
      | NewDefaultDict, PyObj _ PNone :: _ => not_modelled
      | NewDefaultDict, _ :: _ =>
          type_error "first argument must be callable or None"
      | NewList, [] => Returned (PySequence c [])
      | NewList, [PySequence _ elems] => Returned (PySequence c elems)
      | NewList, [PyTuple _ elems] => Returned (PySequence c elems)
      | NewList, [PyObj t (PNone | PInt _)] => not_iterable t
      | NewList, _ => not_modelled
      | NewTuple, [] => Returned (PyTuple c [])
      | NewTuple, [PySequence _ elems] => Returned (PyTuple c elems)
      | NewTuple, [PyTuple _ elems] => Returned (PyTuple c elems)
      | NewTuple, [PyObj t (PNone | PInt _)] => not_iterable t
      | NewTuple, _ => not_modelled
      | NewNamedTuple fields, _ =>
          if Nat.eqb (length args) (length fields)
          then Returned (PyTuple c args)
          else type_error "wrong number of positional arguments"
      | NewRange, _ => range_new c args
      | NewOther, _ => not_modelled
      end
  end.

(** The classes of a program that declares [user] on top of the
    built-ins. *)
Definition python (user : program) : classes :=
  Classes (py_issubclass (builtins ++ user))
          (py_has_fields (builtins ++ user))
          (py_construct (builtins ++ user)).

(** [tensor.to(device, non_blocking)] of a tensor library in which a
    transfer always succeeds: the same storage, on [dev]. *)
Definition torch_to (St : Type) (tensor : value) (dev : device)
  (non_blocking : bool) : M St value :=
  match tensor with
  | PyObj c (PTensor _ storage) => ret (PyObj c (PTensor dev storage))
  | _ => pure_call (Raised (Exn "AttributeError" "object has no attribute 'to'"))
  end.

(** Literals *)
Definition int (n : Z) : value := PyObj "int" (PInt n).
Definition str (s : string) : value := PyStr "str" s.
Definition none : value := PyObj "NoneType" PNone.
Definition tensor (dev : device) (storage : list Z) : value :=
  PyObj "Tensor" (PTensor dev storage).
Definition dict (items : list (key * value)) : value := PyMapping "dict" items.
Definition list_ (elems : list value) : value := PySequence "list" elems.
Definition tuple (elems : list value) : value := PyTuple "tuple" elems.
Definition range (stop : Z) : value :=
  PySequence "range" (range_from (Z.to_nat stop) 0).

(** [lambda x: g(x)] on integers *)
Definition on_int (St : Type) (g : Z -> Z) : callable St :=
  fun x _ _ =>
    match x with
    | PyObj _ (PInt n) => ret (int (g n))
    | _ => pure_call (type_error "unsupported operand type")
    end.
End Python.

(** ** Sample programs *)

Module Samples.
Import Python.

(** A program that declares [Point = namedtuple('Point', ['x', 'y'])]. *)
Definition py : classes := python [namedtuple "Point" ["x"; "y"]].

Definition Point (x y : value) : value := PyTuple "Point" [x; y].

(** [collections.defaultdict(list, items)] *)
Definition defaultdict (items : list (key * value)) : value :=
  PyMapping "defaultdict" items.

(** Callables without state: [lambda x: x * 2], [lambda x: x + 1],
    [lambda x: x * 10], [lambda x: [x, x]], and one that raises. *)
Definition double : callable unit := on_int (fun x => x * 2)%Z.
Definition succ : callable unit := on_int (fun x => x + 1)%Z.
Definition times10 : callable unit := on_int (fun x => x * 10)%Z.
Definition twice : callable unit := fun x _ _ => ret (list_ [x; x]).
Definition refuse : callable unit :=
  fun _ _ _ => pure_call (Raised (Exn "ValueError" "refused")).

(** What a deeper level of recursion would do if it were ever entered. *)
Definition too_deep : value -> M unit value :=
  fun _ => pure_call (Raised (Exn "RecursionError" "maximum recursion depth exceeded")).
End Samples.

(** ** Vocabulary of the properties *)

(** The recognised collections: what the mapper recurses into when the value
    is not of the leaf types. *)
Definition is_collection (data : value) : bool :=
  match data with
  | PyMapping _ _ | PyTuple _ _ | PySequence _ _ => true
  | PyObj _ _ | PyStr _ _ => false
  end.

(** The sub-values of a collection, in iteration order. *)
Definition children (data : value) : list value :=
  match data with
  | PyMapping _ items => map snd items
  | PyTuple _ elems | PySequence _ elems => elems
  | PyObj _ _ | PyStr _ _ => []
  end.

(** The same collection around other sub-values: same class, same keys. *)
Definition with_children (data : value) (outs : list value) : value :=
  match data with
  | PyMapping c items => PyMapping c (combine (map fst items) outs)
  | PyTuple c _ => PyTuple c outs
  | PySequence c _ => PySequence c outs
  | PyObj _ _ | PyStr _ _ => data
  end.

(** The arguments on which the class of a collection is called once its
    sub-values have been mapped to [outs]. *)
Definition call_args (env : classes) (data : value) (outs : list value)
  : list value :=
  match data with
  | PyMapping _ items =>
      [PyMapping "dict" (dict_of (combine (map fst items) outs))]
  | PyTuple c _ =>
      if has_fields env c then outs else [PySequence "list" outs]
  | PySequence _ _ => [PySequence "list" outs]
  | PyObj _ _ | PyStr _ _ => []
  end.

(** Nesting depth: 0 for anything that is not a collection, strings
    included. *)
Fixpoint depth (data : value) : nat :=
  match data with
  | PyMapping _ items => S (list_max (map (fun kv => depth (snd kv)) items))
  | PyTuple _ elems | PySequence _ elems => S (list_max (map depth elems))
  | PyObj _ _ | PyStr _ _ => 0
  end.

(** The outermost sub-values of the leaf types, from left to right: where the
    traversal stops and calls the function. *)
Fixpoint leaves (env : classes) (d : dtype) (data : value) : list value :=
  if isinstance env data d then [data]
  else
    match data with
    | PyMapping _ items => flat_map (fun kv => leaves env d (snd kv)) items
    | PyTuple _ elems | PySequence _ elems => flat_map (leaves env d) elems
    | PyObj _ _ | PyStr _ _ => []
    end.

(** A callable that also notes each call it receives. *)
Definition logged (St : Type) (function : callable St)
  : callable (St * list value) :=
  fun x args kwargs st =>
    let (r, s') := function x args kwargs (fst st) in
    (r, (s', snd st ++ [x])).

Section Runs.
Variables (St A B : Type) (g : A -> M St B).

(** The calls [g x1], [g x2], ... made one after the other, each from the
    state the previous one left, all return. *)
Inductive in_order : list A -> St -> list B -> St -> Prop :=
| in_order_nil s : in_order [] s [] s
| in_order_cons x xs y ys s s1 s2 :
    g x s = (Returned y, s1) ->
    in_order xs s1 ys s2 ->
    in_order (x :: xs) s (y :: ys) s2.
End Runs.

(** [y] is something [function(v, *args, **kwargs)] returns. *)
Definition returned_by (St : Type) (function : callable St)
  (args : list value) (kwargs : list (string * value)) (v y : value) : Prop :=
  exists s s', function v args kwargs s = (Returned y, s').

(** What a tensor becomes: something its [to(dev, non_blocking=True)]
    returns. *)
Definition moved (St : Type) (tensor_to : value -> device -> bool -> M St value)
  (dev : device) (tensor out : value) : Prop :=
  exists s s', tensor_to tensor dev true s = (Returned out, s').

Section Shape.
Variable env : classes.
Variable d : dtype.

(** The class of a collection rebuilds it: called as the mapper calls it,
    on mapped sub-values, it returns an object of that class around
    them. *)
Definition faithful (data : value) : Prop :=
  forall outs,
    length outs = length (children data) ->
    construct env (type_ data) (call_args env data outs)
    = Returned (with_children data outs).

(** Every collection the traversal goes through is rebuilt by its
    class. *)
Inductive rebuildable : value -> Prop :=
| rebuildable_leaf data :
    isinstance env data d = true -> rebuildable data
| rebuildable_other data :
    is_collection data = false -> rebuildable data
| rebuildable_collection data :
    isinstance env data d = false ->
    is_collection data = true ->
    faithful data ->
    Forall rebuildable (children data) ->
    rebuildable data.

(** [out] has the shape of [data]: each outermost sub-value of the leaf
    types is replaced by an image of it, every other value that is not a
    collection is the same, collections have the same class, the same keys
    and as many sub-values. *)
Variable image : value -> value -> Prop.

Inductive same_shape : value -> value -> Prop :=
| same_shape_leaf data out :
    isinstance env data d = true -> image data out -> same_shape data out
| same_shape_other data :
    isinstance env data d = false ->
    is_collection data = false ->
    same_shape data data
| same_shape_collection data outs :
    isinstance env data d = false ->
    is_collection data = true ->
    Forall2 same_shape (children data) outs ->
    same_shape data (with_children data outs).
End Shape.

Section Failures.
Variables (St : Type) (env : classes) (d : dtype) (function : callable St).
Variables (args : list value) (kwargs : list (string * value)).

Let apply := apply_to_collection env d function args kwargs.

End Failures.

Section Calls.
Variables (St : Type) (env : classes) (d : dtype) (function : callable St).
Variables (args : list value) (kwargs : list (string * value)).

(** The calls of a run on [data], as a function that notes them sees them:
    the same outcome and state, and a log extended by a prefix of the leaves
    of [data], all of them if the run returns. *)
Definition calls_of_run (data : value) : Prop :=
  forall s log r s',
    apply_to_collection env d function args kwargs data s = (r, s') ->
    exists calls,
      apply_to_collection env d (logged function) args kwargs data (s, log)
      = (r, (s', log ++ calls)) /\
      (exists rest, leaves env d data = calls ++ rest) /\
      (forall out, r = Returned out -> calls = leaves env d data).
End Calls.

(** [lambda x: h(x)] for an [h] that touches no state and always returns;
    [*args] and [**kwargs] are accepted and ignored. *)
Definition pure_function (St : Type) (h : value -> value) : callable St :=
  fun x _ _ => ret (h x).

(** The map over the leaves as a function on trees, for comparison with the
    mapper: [h] at each outermost sub-value of the leaf types, the same
    collections around, everything else as it is. *)
Fixpoint map_leaves (env : classes) (d : dtype) (h : value -> value)
  (data : value) : value :=
  if isinstance env data d then h data
  else
    match data with
    | PyMapping c items =>
        PyMapping c
          (map (fun kv => (fst kv, map_leaves env d h (snd kv))) items)
    | PyTuple c elems => PyTuple c (map (map_leaves env d h) elems)
    | PySequence c elems => PySequence c (map (map_leaves env d h) elems)
    | PyObj _ _ | PyStr _ _ => data
    end.

(** The types a [dtype] stands for. *)
Definition types_of (d : dtype) : list cls :=
  match d with
  | OneType t => [t]
  | TypeTuple ts => ts
  end.


(** ** Induction on values *)

Section ValueInduction.
Variable P : value -> Prop.
Hypothesis P_other : forall data, is_collection data = false -> P data.
Hypothesis P_collection :
  forall data,
    is_collection data = true -> Forall P (children data) -> P data.

Fixpoint value_induction (data : value) : P data :=
  match data with
  | PyObj c p => P_other (PyObj c p) eq_refl
  | PyStr c s => P_other (PyStr c s) eq_refl
  | PyMapping c items =>
      P_collection (PyMapping c items) eq_refl
        ((fix each (l : list (key * value)) : Forall P (map snd l) :=
            match l with
            | [] => Forall_nil P
            | kv :: rest =>
                Forall_cons (snd kv) (value_induction (snd kv)) (each rest)
            end) items)
  | PyTuple c elems =>
      P_collection (PyTuple c elems) eq_refl
        ((fix each (l : list value) : Forall P l :=
            match l with
            | [] => Forall_nil P
            | x :: rest => Forall_cons x (value_induction x) (each rest)
            end) elems)
  | PySequence c elems =>
      P_collection (PySequence c elems) eq_refl
        ((fix each (l : list value) : Forall P l :=
            match l with
            | [] => Forall_nil P
            | x :: rest => Forall_cons x (value_induction x) (each rest)
            end) elems)
  end.
End ValueInduction.

(** ** Loops in the monad *)

Section LoopFacts.
Variables (St A B : Type).
Implicit Types (g : A -> M St B) (xs : list A) (ys : list B) (s : St).

Lemma for_each_returned g xs s ys s' :
  for_each g xs s = (Returned ys, s') <-> in_order g xs s ys s'.
Proof.
  split.
  - revert s ys. induction xs as [|x xs IH]; intros s ys; cbn.
    + unfold ret. intros [= <- <-]. constructor.
    + unfold bind at 1.
      destruct (g x s) as [[y|e] s1] eqn:Hx; [|discriminate].
      unfold bind.
      destruct (for_each g xs s1) as [[zs|e] s2] eqn:Hxs; [|discriminate].
      unfold ret. intros [= <- <-].
      econstructor; eauto.
  - induction 1 as [|x xs y ys s s1 s2 Hx _ IH]; cbn.
    + reflexivity.
    + unfold bind at 1. rewrite Hx. unfold bind. now rewrite IH.
Qed.


Lemma for_each_ext g g' xs :
  (forall x, In x xs -> forall s, g x s = g' x s) ->
  forall s, for_each g xs s = for_each g' xs s.
Proof.
  induction xs as [|x xs IH]; intros Hg s; cbn; [reflexivity|].
  unfold bind at 1 3. rewrite (Hg x (or_introl eq_refl)).
  destruct (g' x s) as [[y|e] s1]; [|reflexivity].
  unfold bind. rewrite IH; [reflexivity|].
  intros x' Hin. apply Hg. now right.
Qed.

Lemma in_order_length g xs s ys s' :
  in_order g xs s ys s' -> length ys = length xs.
Proof. induction 1; cbn; congruence. Qed.
End LoopFacts.

(** The loop over the items of a mapping is the loop over its values, the
    keys put back in front of the results. *)
Lemma for_each_items (St : Type) (self : value -> M St value)
  (items : list (key * value)) (s : St) :
  for_each (fun kv => v <- self (snd kv) ;; ret (fst kv, v)) items s
  = (outs <- for_each self (map snd items) ;;
     ret (combine (map fst items) outs)) s.
Proof.
  revert s. induction items as [|[k x] items IH]; intros s; cbn.
  - reflexivity.
  - unfold bind at 1 2 5 6. cbn.
    destruct (self x s) as [[y|e] s1]; [|reflexivity]. cbn.
    unfold bind at 1. rewrite IH. unfold bind.
    destruct (for_each self (map snd items) s1) as [[ys|e] s2]; reflexivity.
Qed.

(** ** Dict comprehensions *)

Lemma key_eqb_eq (k1 k2 : key) : key_eqb k1 k2 = true <-> k1 = k2.
Proof.
  destruct k1 as [a|a], k2 as [b|b]; cbn; split; try discriminate.
  - intros H. apply String.eqb_eq in H. now subst.
  - intros [= ->]. apply String.eqb_refl.
  - intros H. apply Z.eqb_eq in H. now subst.
  - intros [= ->]. apply Z.eqb_refl.
Qed.

Lemma dict_setitem_fresh (d : list (key * value)) (k : key) (v : value) :
  ~ In k (map fst d) -> dict_setitem d k v = d ++ [(k, v)].
Proof.
  induction d as [|[k' v'] d IH]; cbn; intros Hk; [reflexivity|].
  destruct (key_eqb k' k) eqn:E.
  - apply key_eqb_eq in E. tauto.
  - rewrite IH; tauto.
Qed.

Lemma dict_of_from (pairs acc : list (key * value)) :
  NoDup (map fst (acc ++ pairs)) ->
  fold_left (fun d kv => dict_setitem d (fst kv) (snd kv)) pairs acc
  = acc ++ pairs.
Proof.
  revert acc. induction pairs as [|[k v] pairs IH]; intros acc Hnd; cbn.
  - now rewrite app_nil_r.
  - rewrite dict_setitem_fresh.
    + rewrite IH; rewrite <- app_assoc; [reflexivity | exact Hnd].
    + rewrite map_app in Hnd. cbn in Hnd.
      apply NoDup_remove_2 in Hnd. intros Hin. apply Hnd.
      apply in_or_app. now left.
Qed.

(** Distinct keys come out of a comprehension as they went in. *)
Lemma dict_of_distinct (pairs : list (key * value)) :
  NoDup (map fst pairs) -> dict_of pairs = pairs.
Proof. intros H. unfold dict_of. now rewrite dict_of_from. Qed.

Lemma map_fst_combine (A B : Type) (ks : list A) (vs : list B) :
  length vs = length ks -> map fst (combine ks vs) = ks.
Proof.
  revert vs. induction ks as [|k ks IH]; intros [|v vs]; cbn; try discriminate.
  - reflexivity.
  - intros [= H]. now rewrite IH.
Qed.

(** ** The mapper on a collection *)

Section Unfolding.
Variables (St : Type) (env : classes) (d : dtype) (function : callable St).
Variables (args : list value) (kwargs : list (string * value)).

Let apply := apply_to_collection env d function args kwargs.

Lemma apply_unfold (data : value) :
  apply data = apply_body env d function args kwargs apply data.
Proof. destruct data; reflexivity. Qed.

(** On a collection that is not of the leaf types: map the sub-values from
    left to right, then call the class of the collection. *)
Lemma apply_collection (data : value) (s : St) :
  isinstance env data d = false ->
  is_collection data = true ->
  apply data s
  = (outs <- for_each apply (children data) ;;
     pure_call (construct env (type_ data) (call_args env data outs))) s.
Proof.
  intros Hleaf Hcoll. rewrite apply_unfold. unfold apply_body.
  rewrite Hleaf.
  destruct data as [c p|c t|c items|c elems|c elems]; try discriminate; cbn.
  - unfold bind at 1 3. rewrite for_each_items. unfold bind.
    destruct (for_each apply (map snd items) s) as [[outs|e] s1];
      reflexivity.
  - destruct (has_fields env c); reflexivity.
  - reflexivity.
Qed.

Lemma apply_collection_returned (data : value) (s : St) outs s1 :
  isinstance env data d = false ->
  is_collection data = true ->
  in_order apply (children data) s outs s1 ->
  apply data s = (construct env (type_ data) (call_args env data outs), s1).
Proof.
  intros Hleaf Hcoll Hrun. rewrite apply_collection by assumption.
  apply for_each_returned in Hrun. unfold bind. now rewrite Hrun.
Qed.

Lemma apply_leaf (data : value) (s : St) :
  isinstance env data d = true ->
  apply data s = function data args kwargs s.
Proof.
  intros Hleaf. rewrite apply_unfold. unfold apply_body. now rewrite Hleaf.
Qed.

Lemma apply_other (data : value) (s : St) :
  isinstance env data d = false ->
  is_collection data = false ->
  apply data s = (Returned data, s).
Proof.
  intros Hleaf Hcoll. rewrite apply_unfold. unfold apply_body.
  rewrite Hleaf. destruct data; try discriminate; reflexivity.
Qed.
End Unfolding.


Lemma list_max_bound (A : Type) (f : A -> nat) (l : list A) (x : A) :
  In x l -> f x <= list_max (map f l).
Proof.
  induction l as [|y l IH]; [intros []|].
  change (list_max (map f (y :: l)))
    with (Nat.max (f y) (list_max (map f l))).
  intros [->|Hin]; [lia|]. specialize (IH Hin). lia.
Qed.

Lemma depth_child (data x : value) :
  In x (children data) -> depth x < depth data.
Proof.
  destruct data as [c p|c t|c items|c elems|c elems]; cbn; try tauto.
  - intros Hin. apply in_map_iff in Hin as ([k v] & <- & Hin).
    apply (list_max_bound (fun kv => depth (snd kv))) in Hin. cbn in *. lia.
  - intros Hin. apply (list_max_bound depth) in Hin. lia.
  - intros Hin. apply (list_max_bound depth) in Hin. lia.
Qed.

Lemma leaves_collection (env : classes) (d : dtype) (data : value) :
  isinstance env data d = false ->
  leaves env d data = flat_map (leaves env d) (children data).
Proof.
  intros Hleaf.
  destruct data as [c p|c t|c items|c elems|c elems]; cbn in *;
    rewrite Hleaf; try reflexivity.
  induction items as [|kv items IH]; cbn; [reflexivity|]. now rewrite IH.
Qed.

(** The body consults [self] on the sub-values of the collection only. *)
Lemma apply_body_ext (St : Type) (env : classes) (d : dtype)
  (function : callable St) (args : list value) (kwargs : list (string * value))
  (self self' : value -> M St value) (data : value) :
  (forall x, In x (children data) -> forall s, self x s = self' x s) ->
  forall s,
    apply_body env d function args kwargs self data s
    = apply_body env d function args kwargs self' data s.
Proof.
  intros Hself s. unfold apply_body.
  destruct (isinstance env data d); [reflexivity|].
  assert (Hitems : forall items : list (key * value),
             (forall x, In x (map snd items) -> forall s, self x s = self' x s) ->
             for_each (fun kv => v <- self (snd kv) ;; ret (fst kv, v)) items s
             = for_each (fun kv => v <- self' (snd kv) ;; ret (fst kv, v))
                        items s).
  { intros items H. apply for_each_ext. intros kv Hin s0. unfold bind.
    rewrite (H (snd kv)); [reflexivity|]. now apply in_map. }
  destruct data as [c p|c t|c items|c elems|c elems]; cbn in Hself |- *;
    try reflexivity.
  - pose proof (Hitems items Hself) as E. unfold bind in E |- *.
    now rewrite E.
  - destruct (has_fields env c); unfold bind;
      now rewrite (for_each_ext self self' _ Hself).
  - unfold bind. now rewrite (for_each_ext self self' _ Hself).
Qed.

(** ** The shape of the result *)

Lemma in_order_total (St A B : Type) (g : A -> M St B) (xs : list A) :
  Forall (fun x => forall s, exists y s', g x s = (Returned y, s')) xs ->
  forall s, exists ys s', in_order g xs s ys s'.
Proof.
  induction 1 as [|x xs Hx _ IH]; intros s.
  - exists [], s. constructor.
  - destruct (Hx s) as (y & s1 & Hy). destruct (IH s1) as (ys & s2 & Hys).
    exists (y :: ys), s2. econstructor; eauto.
Qed.

Lemma in_order_Forall2 (St A B : Type) (g : A -> M St B) (R : A -> B -> Prop)
  (xs : list A) (s : St) (ys : list B) (s' : St) :
  in_order g xs s ys s' ->
  Forall (fun x => forall s y s', g x s = (Returned y, s') -> R x y) xs ->
  Forall2 R xs ys.
Proof.
  induction 1 as [|x xs y ys s s1 s2 Hx _ IH]; intros Hall.
  - constructor.
  - inversion Hall; subst. constructor; eauto.
Qed.

Section ShapeFacts.
Variables (St : Type) (env : classes) (d : dtype) (function : callable St).
Variables (args : list value) (kwargs : list (string * value)).

Local Abbreviation apply := (apply_to_collection env d function args kwargs).

Lemma rebuildable_collection_inv (data : value) :
  rebuildable env d data ->
  isinstance env data d = false ->
  is_collection data = true ->
  faithful env data /\ Forall (rebuildable env d) (children data).
Proof.
  intros Hr Hleaf Hcoll. inversion Hr; subst; try congruence. now split.
Qed.

(** Where every collection on the way is rebuilt by its class, what the
    mapper returns has the shape of its argument. *)
Lemma apply_same_shape (data : value) :
  rebuildable env d data ->
  forall s out s',
    apply data s = (Returned out, s') ->
    same_shape env d (returned_by function args kwargs) data out.
Proof.
  induction data as [data Hcoll|data Hcoll IH] using value_induction;
    intros Hr s out s' Hrun;
    destruct (isinstance env data d) eqn:Hleaf.
  - rewrite apply_leaf in Hrun by assumption.
    apply same_shape_leaf; [assumption|]. now exists s, s'.
  - rewrite apply_other in Hrun by assumption.
    injection Hrun as <- <-. now apply same_shape_other.
  - rewrite apply_leaf in Hrun by assumption.
    apply same_shape_leaf; [assumption|]. now exists s, s'.
  - destruct (rebuildable_collection_inv Hr Hleaf Hcoll) as [Hfaith Hsub].
    rewrite apply_collection in Hrun by assumption.
    unfold bind in Hrun.
    destruct (for_each apply (children data) s) as [[outs|e] s1] eqn:Hloop;
      [|discriminate].
    apply for_each_returned in Hloop.
    unfold pure_call in Hrun.
    rewrite Hfaith in Hrun by (eapply in_order_length; eauto).
    injection Hrun as <- <-.
    apply same_shape_collection; try assumption.
    eapply in_order_Forall2; [exact Hloop|].
    apply Forall_forall. intros x Hin s0 y s0' Hx.
    rewrite Forall_forall in IH, Hsub. eapply IH; eauto.
Qed.

(** ... and it does return, if the function returns on the values it is
    called on. *)
Lemma apply_returns (data : value) :
  (forall v, In v (leaves env d data) ->
             forall s, exists y s', function v args kwargs s = (Returned y, s')) ->
  rebuildable env d data ->
  forall s, exists out s', apply data s = (Returned out, s').
Proof.
  induction data as [data Hcoll|data Hcoll IH] using value_induction;
    intros Hfun Hr s;
    destruct (isinstance env data d) eqn:Hleaf.
  1, 3:
    rewrite apply_leaf by assumption; apply Hfun;
    destruct data; cbn in Hleaf |- *; rewrite Hleaf; now left.
  - rewrite apply_other by assumption. now exists data, s.
  - destruct (rebuildable_collection_inv Hr Hleaf Hcoll) as [Hfaith Hsub].
    rewrite leaves_collection in Hfun by assumption.
    assert (Hall : Forall (fun x => forall s, exists y s',
                               apply x s = (Returned y, s')) (children data)).
    { apply Forall_forall. intros x Hin.
      rewrite Forall_forall in IH, Hsub. apply IH; auto.
      intros v Hv. apply Hfun. apply in_flat_map. now exists x. }
    destruct (@in_order_total _ _ _ apply (children data) Hall s)
      as (outs & s1 & Hloop).
    exists (with_children data outs), s1.
    rewrite (apply_collection_returned data Hleaf Hcoll Hloop).
    rewrite Hfaith; [reflexivity|]. eapply in_order_length; eauto.
Qed.
End ShapeFacts.

(** ** Properties of [apply_to_collection] *)

Section Mapper.
Variables (St : Type) (env : classes) (d : dtype) (function : callable St).
Variables (args : list value) (kwargs : list (string * value)).

Local Abbreviation apply := (apply_to_collection env d function args kwargs).
Local Abbreviation body := (apply_body env d function args kwargs).

(** C2: a value that is an instance of the leaf types is mapped to
  [function(value, *args, **kwargs)], whatever its structure: a mapping, a
  named tuple or a sequence of the leaf types is a leaf too.  The test comes
  first, and the body does not consult its recursive calls ([self]) at all
  on such a value, so nothing inside it is visited. *)
Theorem leaf_types_first (self : value -> M St value) (data : value) (s : St) :
isinstance env data d = true ->
apply data s = function data args kwargs s /\
body self data s = function data args kwargs s.
Proof.
intros Hleaf. split.
- now apply apply_leaf.
- unfold apply_body. now rewrite Hleaf.
Qed.

(** C6: a string is never taken apart.  If [str] is of the leaf types the
  result is the function applied to the whole string, otherwise it is the
  string itself; the body makes no recursive call on a string, whatever
  its length. *)
Theorem string_never_decomposed (self : value -> M St value) (c : cls)
(text : string) (s : St) :
let whole :=
  if isinstance env (PyStr c text) d
  then function (PyStr c text) args kwargs s
  else (Returned (PyStr c text), s) in
apply (PyStr c text) s = whole /\ body self (PyStr c text) s = whole.
Proof.
cbn. unfold apply_body.
destruct (isinstance env (PyStr c text) d); split; reflexivity.
Qed.

(** C7: a value that is not of the leaf types and is not a recognised
  collection (neither a mapping, nor a tuple, nor another non-string
  sequence) is returned as it is, and nothing is raised. *)
Theorem unmatched_value_unchanged (data : value) (s : St) :
isinstance env data d = false ->
is_collection data = false ->
apply data s = (Returned data, s).
Proof. intros Hleaf Hcoll. now apply apply_other. Qed.

(** C4 (as amended): a mapping that is not of the leaf types: the values
    are mapped in the order of [items()], the keys are kept, and the result
    is what the class of the mapping returns when called on a new [dict] from
    the keys to the mapped values.  When that class rebuilds the mapping from
    a dict, as [dict] and [OrderedDict] do, the result is a mapping of the
    same class, with the same keys in the same order, around the mapped
    values. *)
Theorem mapping_rebuilt_by_its_class (c : cls) (items : list (key * value))
  (outs : list value) (s s1 : St) :
  isinstance env (PyMapping c items) d = false ->
  NoDup (map fst items) ->
  in_order apply (map snd items) s outs s1 ->
  apply (PyMapping c items) s
  = (construct env c [PyMapping "dict" (combine (map fst items) outs)], s1) /\
  map fst (combine (map fst items) outs) = map fst items /\
  (faithful env (PyMapping c items) ->
   apply (PyMapping c items) s
   = (Returned (PyMapping c (combine (map fst items) outs)), s1)).
Proof.
  intros Hleaf Hkeys Hrun.
  assert (Hfst : map fst (combine (map fst items) outs) = map fst items).
  { apply map_fst_combine. apply in_order_length in Hrun.
    now rewrite Hrun, !length_map. }
  assert (Hcall : call_args env (PyMapping c items) outs
                  = [PyMapping "dict" (combine (map fst items) outs)]).
  { cbn. rewrite dict_of_distinct; [reflexivity|]. now rewrite Hfst. }
  rewrite (apply_collection_returned (PyMapping c items) Hleaf eq_refl Hrun).
  rewrite Hcall. split; [reflexivity|]. split; [exact Hfst|].
  intros Hfaith. rewrite <- Hcall.
  change c with (type_ (PyMapping c items)) at 1.
  rewrite Hfaith; [reflexivity|]. now apply in_order_length in Hrun.
Qed.


(** C1 (as amended): a sequence that is neither a string nor a named tuple
  and is not of the leaf types, a plain tuple included: the elements are
  mapped in order and the result is what the class of the sequence returns
  when called on the list of the mapped elements.  When that class rebuilds
  the sequence from a list, as [list] and [tuple] do, the result is a
  sequence of the same class around the mapped elements. *)
Theorem sequence_rebuilt_by_its_class (data : value) (c : cls)
(elems outs : list value) (s s1 : St) :
data = PySequence c elems \/
(data = PyTuple c elems /\ has_fields env c = false) ->
isinstance env data d = false ->
in_order apply elems s outs s1 ->
apply data s = (construct env c [PySequence "list" outs], s1) /\
(faithful env data ->
 apply data s = (Returned (with_children data outs), s1)).
Proof.
intros Hseq Hleaf Hrun.
assert (Hcoll : is_collection data = true)
  by (destruct Hseq as [->|[-> _]]; reflexivity).
assert (Hch : children data = elems)
  by (destruct Hseq as [->|[-> _]]; reflexivity).
assert (Hcall : construct env (type_ data) (call_args env data outs)
                = construct env c [PySequence "list" outs]).
{ destruct Hseq as [->|[-> Hf]]; cbn; [reflexivity|]. now rewrite Hf. }
rewrite <- Hch in Hrun.
rewrite (apply_collection_returned data Hleaf Hcoll Hrun), Hcall.
split; [reflexivity|].
intros Hfaith. rewrite <- Hcall, Hfaith; [reflexivity|].
now apply in_order_length in Hrun.
Qed.


(** C9: the recursion ends on every value, and within its nesting depth.
    Unrolling the body [n] times computes the mapper on every value of depth
    below [n], whatever stands for the calls one level further down
    ([bottom]): they are never made.  A string has depth 0 whatever its
    length, so one unrolling is enough for it. *)
Theorem recursion_bounded_by_depth (bottom : value -> M St value) (n : nat)
  (data : value) (s : St) :
  depth data < n ->
  Nat.iter n body bottom data s = apply data s.
Proof.
  revert data s. induction n as [|n IH]; intros data s Hdepth; [lia|].
  cbn [Nat.iter nat_rect]. rewrite apply_unfold.
  apply apply_body_ext. intros x Hin s0. apply IH.
  apply depth_child in Hin. lia.
Qed.

Lemma leaves_leaf (data : value) :
  isinstance env data d = true -> leaves env d data = [data].
Proof. intros H. destruct data; cbn in *; now rewrite H. Qed.

Lemma leaves_other (data : value) :
  isinstance env data d = false ->
  is_collection data = false ->
  leaves env d data = [].
Proof. intros H Hc. destruct data; cbn in *; try discriminate; now rewrite H. Qed.

Local Abbreviation apply_logged :=
  (apply_to_collection env d (logged function) args kwargs).
Local Abbreviation calls_of_run := (calls_of_run env d function args kwargs).

Lemma calls_of_loop (xs : list value) :
  Forall calls_of_run xs ->
  forall s log r s',
    for_each apply xs s = (r, s') ->
    exists calls,
      for_each apply_logged xs (s, log) = (r, (s', log ++ calls)) /\
      (exists rest, flat_map (leaves env d) xs = calls ++ rest) /\
      (forall outs, r = Returned outs -> calls = flat_map (leaves env d) xs).
Proof.
  induction 1 as [|x xs Hx _ IH]; intros s log r s' Hrun; cbn in Hrun |- *.
  - injection Hrun as <- <-. exists []. rewrite app_nil_r.
    split; [reflexivity|split; [now exists []|now intros]].
  - unfold bind at 1 in Hrun. unfold bind at 1.
    destruct (apply x s) as [[y|e] s1] eqn:Hy;
      destruct (Hx s log _ _ Hy) as (c1 & E1 & (r1 & P1) & F1); rewrite E1.
    + pose proof (F1 y eq_refl) as C1.
      unfold bind in Hrun |- *.
      destruct (for_each apply xs s1) as [rs s2] eqn:Hys.
      destruct (IH s1 (log ++ c1) _ _ Hys) as (c2 & E2 & (r2 & P2) & F2).
      rewrite E2. exists (c1 ++ c2). rewrite app_assoc, <- C1.
      split; [destruct rs; now injection Hrun as <- <-|].
      split; [exists r2; now rewrite P2, app_assoc|].
      intros outs Hr. destruct rs as [ys|e]; [|now injection Hrun as <- <-].
      now rewrite (F2 ys eq_refl).
    + injection Hrun as <- <-. exists c1.
      split; [reflexivity|split; [|discriminate]].
      exists (r1 ++ flat_map (leaves env d) xs). now rewrite P1, app_assoc.
Qed.

Lemma calls_of_any_run (data : value) : calls_of_run data.
Proof.
  induction data as [data Hcoll|data Hcoll IH] using value_induction;
    intros s log r s' Hrun;
    destruct (isinstance env data d) eqn:Hleaf.
  1, 3:
    rewrite apply_leaf in Hrun |- * by assumption;
    exists [data]; rewrite leaves_leaf by assumption;
    unfold logged; cbn; rewrite Hrun;
    (split; [reflexivity|split; [now exists []|now intros]]).
  - rewrite apply_other in Hrun |- * by assumption.
    injection Hrun as <- <-. exists [].
    rewrite app_nil_r, leaves_other by assumption.
    split; [reflexivity|split; [now exists []|now intros]].
  - rewrite apply_collection in Hrun |- * by assumption.
    rewrite leaves_collection by assumption.
    unfold bind in Hrun |- *.
    destruct (for_each apply (children data) s) as [[outs|e] s1] eqn:Hloop;
      destruct (calls_of_loop IH s log Hloop) as (calls & E & P & F);
      rewrite E; unfold pure_call in *; injection Hrun as <- <-;
      exists calls; (split; [reflexivity|split; [exact P|]]).
    + intros out _. now apply (F outs).
    + discriminate.
Qed.

(** C10: the function is called on the outermost sub-values of the leaf
    types, from left to right, once each and on nothing else.  A function
    that notes its calls ends with a log extended by a prefix of [leaves],
    and by all of [leaves] when the mapper returns; noting the calls changes
    neither the outcome nor the state.  What the function returned is put in
    place as it is: the leaves are those of the argument, so a returned
    value is never mapped again or searched, whatever it is, and where the
    classes rebuild their collections the result has the shape of the
    argument with the returned values at the leaves. *)
Theorem function_called_once_per_leaf (data : value) (s : St)
  (log : list value) :
  exists calls,
    apply_logged data (s, log)
    = (fst (apply data s), (snd (apply data s), log ++ calls)) /\
    (exists rest, leaves env d data = calls ++ rest) /\
    (forall out,
       fst (apply data s) = Returned out ->
       calls = leaves env d data /\
       (rebuildable env d data ->
        same_shape env d (returned_by function args kwargs) data out)).
Proof.
  destruct (apply data s) as [r s'] eqn:Hrun.
  destruct (calls_of_any_run data s log Hrun) as (calls & E & P & F).
  exists calls. cbn. split; [exact E|split; [exact P|]].
  intros out ->. split; [now apply (F out)|].
  intros Hr. eapply apply_same_shape; eauto.
Qed.
End Mapper.

(** ** Properties of [transfer_batch_to_device] *)

Section Transfer.
Variables (St : Type) (env : classes).
Variable tensor_to : value -> device -> bool -> M St value.
Variable dev : device.

(** C3 (as amended): for a batch in which every collection on the way is
    rebuilt by its class, and whose tensors all have a transfer that
    returns, [transfer_batch_to_device] returns a value of the shape of the batch:
    each outermost tensor is replaced by what its
    [to(device, non_blocking=True)] returned, every other value that is not
    a collection is the same, at the same place. *)
Theorem batch_moved_in_place (batch : value) (s : St) :
  rebuildable env (OneType "Tensor") batch ->
  (forall tensor,
     In tensor (leaves env (OneType "Tensor") batch) ->
     forall s0, exists out s1, tensor_to tensor dev true s0 = (Returned out, s1)) ->
  exists out s',
    transfer_batch_to_device env tensor_to batch dev s = (Returned out, s') /\
    same_shape env (OneType "Tensor") (moved tensor_to dev) batch out.
Proof.
  intros Hbatch Hto. unfold transfer_batch_to_device.
  destruct (@apply_returns St env (OneType "Tensor") (to tensor_to dev)
              [] [] batch Hto Hbatch s) as (out & s' & Hrun).
  exists out, s'. split; [exact Hrun|].
  exact (@apply_same_shape St env (OneType "Tensor") (to tensor_to dev)
           [] [] batch Hbatch s out s' Hrun).
Qed.
End Transfer.

(** ** The built-in collections are rebuilt by their classes *)

Module PythonFacts.
Import Python.

Lemma dict_faithful (user : program) (items : list (key * value)) :
  NoDup (map fst items) -> faithful (python user) (dict items).
Proof.
  intros Hkeys outs Hlen. cbn in Hlen |- *.
  rewrite length_map in Hlen.
  rewrite dict_of_distinct; [reflexivity|].
  rewrite map_fst_combine; [assumption|]. now rewrite length_map.
Qed.

Lemma list_faithful (user : program) (elems : list value) :
  faithful (python user) (list_ elems).
Proof. intros outs _. reflexivity. Qed.

Lemma tuple_faithful (user : program) (elems : list value) :
  faithful (python user) (tuple elems).
Proof. intros outs _. reflexivity. Qed.

Lemma Point_faithful (x y : value) : faithful Samples.py (Samples.Point x y).
Proof.
  intros outs Hlen. cbn in Hlen |- *.
  unfold py_construct. cbn. now rewrite Hlen.
Qed.
End PythonFacts.

(** ** The properties at work *)

Module Cases.
Import Python Samples PythonFacts.

Local Abbreviation int_ := (OneType "int").

(** C2 at a dict, with [Mapping] as the leaf type: the function gets the
    dict itself. *)
Lemma leaf_types_first_witness :
  let data := dict [(KStr "a", int 1)] in
  isinstance py data (OneType "Mapping") = true /\
  apply_to_collection py (OneType "Mapping") twice [] [] data tt
  = (Returned (list_ [data; data]), tt) /\
  apply_body py (OneType "Mapping") twice [] [] too_deep data tt
  = (Returned (list_ [data; data]), tt).
Proof.
  split; [reflexivity|].
  apply (@leaf_types_first unit py (OneType "Mapping") twice [] []
           too_deep (dict [(KStr "a", int 1)]) tt).
  reflexivity.
Defined.

(** C7 at [None] and leaf type [int]. *)
Lemma unmatched_value_unchanged_witness :
  isinstance py none int_ = false /\
  is_collection none = false /\
  apply_to_collection py int_ double [] [] none tt = (Returned none, tt).
Proof.
  split; [reflexivity|]. split; [reflexivity|].
  apply (@unmatched_value_unchanged unit py int_ double [] [] none tt);
    reflexivity.
Defined.

(** C4 (as amended) at [{"a": 1, "b": 2}], leaf type [int],
    [lambda x: x * 2]. *)
Lemma mapping_rebuilt_by_its_class_witness :
  let items := [(KStr "a", int 1); (KStr "b", int 2)] in
  isinstance py (dict items) int_ = false /\
  NoDup (map fst items) /\
  faithful py (dict items) /\
  apply_to_collection py int_ double [] [] (dict items) tt
  = (Returned (dict [(KStr "a", int 2); (KStr "b", int 4)]), tt).
Proof.
  assert (Hkeys : NoDup (map fst [(KStr "a", int 1); (KStr "b", int 2)]))
    by (repeat constructor; cbn; intuition discriminate).
  split; [reflexivity|]. split; [exact Hkeys|].
  split; [now apply dict_faithful|].
  refine (proj2 (proj2 (@mapping_rebuilt_by_its_class unit py int_ double
                          [] [] "dict"
                          [(KStr "a", int 1); (KStr "b", int 2)]
                          [int 2; int 4] tt tt _ Hkeys _)) _).
  - reflexivity.
  - repeat econstructor.
  - now apply dict_faithful.
Defined.

(** C4 as stated fails at a [defaultdict]: it is a mapping, not of the leaf
    type, its values are mapped, and then [defaultdict] takes the new dict
    for its [default_factory] and raises [TypeError]; no mapping is
    returned. *)
Lemma defaultdict_is_not_rebuilt :
  let data := defaultdict [(KStr "a", int 1); (KStr "b", int 2)] in
  isinstance py data int_ = false /\
  apply_to_collection py int_ double [] [] data tt
  = (Raised (Exn "TypeError" "first argument must be callable or None"), tt)
  /\
  ~ (exists out s',
       apply_to_collection py int_ double [] [] data tt = (Returned out, s')).
Proof.
  split; [reflexivity|]. split; [reflexivity|].
  intros (out & s' & H). vm_compute in H. discriminate.
Qed.


(** C1 (as amended) at [[1, "keep", 2]], leaf type [int],
    [lambda x: x * 10]. *)
Lemma sequence_rebuilt_by_its_class_witness :
  let data := list_ [int 1; str "keep"; int 2] in
  isinstance py data int_ = false /\
  apply_to_collection py int_ times10 [] [] data tt
  = (Returned (list_ [int 10; str "keep"; int 20]), tt).
Proof.
  split; [reflexivity|].
  refine (proj2 (@sequence_rebuilt_by_its_class unit py int_ times10 [] []
                   (list_ [int 1; str "keep"; int 2])
                   "list" [int 1; str "keep"; int 2]
                   [int 10; str "keep"; int 20] tt tt _ _ _) _).
  - left; reflexivity.
  - reflexivity.
  - repeat econstructor.
  - apply list_faithful.
Defined.

(** C1 as stated fails at [range(3)]: it is a sequence, not a string and not
    of the leaf type, its elements are mapped, and then [range] refuses the
    list: the call raises [TypeError] and returns no sequence. *)
Lemma range_is_not_rebuilt :
  is_collection (range 3) = true /\
  isinstance py (range 3) (OneType "str") = false /\
  apply_to_collection py (OneType "str") succ [] [] (range 3) tt
  = (Raised
       (Exn "TypeError" "'list' object cannot be interpreted as an integer"),
     tt)
  /\
  ~ (exists out s',
       apply_to_collection py (OneType "str") succ [] [] (range 3) tt
       = (Returned out, s')).
Proof.
  split; [reflexivity|]. split; [reflexivity|]. split; [reflexivity|].
  intros (out & s' & H). vm_compute in H. discriminate.
Qed.

(** C9 at the string ["hello"]: one unrolling, nothing below it. *)
Lemma recursion_bounded_by_depth_witness :
  depth (str "hello") < 1 /\
  Nat.iter 1 (apply_body py (OneType "list") twice [] []) too_deep
    (str "hello") tt
  = apply_to_collection py (OneType "list") twice [] [] (str "hello") tt.
Proof.
  split; [cbn; lia|].
  apply (@recursion_bounded_by_depth unit py (OneType "list") twice [] []
           too_deep 1 (str "hello") tt).
  cbn; lia.
Defined.

(** C3 (as amended) at a dict of a tensor and a tuple with a tensor in it. *)
Lemma batch_moved_in_place_witness :
  let batch :=
    dict [(KStr "x", tensor "cpu" [1; 2]%Z);
          (KStr "y", tuple [int 3; tensor "cpu" []])] in
  exists out s',
    transfer_batch_to_device py (@torch_to unit) batch "cuda:0" tt
    = (Returned out, s') /\
    same_shape py (OneType "Tensor") (moved (@torch_to unit) "cuda:0")
      batch out.
Proof.
  apply (@batch_moved_in_place unit py (@torch_to unit) "cuda:0").
  - apply rebuildable_collection; [reflexivity|reflexivity| |].
    + apply dict_faithful. repeat constructor; cbn; intuition discriminate.
    + apply Forall_cons; [now apply rebuildable_leaf|].
      apply Forall_cons; [|apply Forall_nil].
      apply rebuildable_collection; [reflexivity|reflexivity| |].
      * apply tuple_faithful.
      * apply Forall_cons; [now apply rebuildable_other|].
        apply Forall_cons; [now apply rebuildable_leaf|apply Forall_nil].
  - cbn. intros t [<-|[<-|[]]] s0; do 2 eexists; reflexivity.
Defined.

(** C3 as stated fails at a [defaultdict] batch: [defaultdict] takes the
    dict of moved values for its [default_factory] and raises [TypeError];
    no batch is returned. *)
Lemma defaultdict_batch_not_moved :
  let batch := defaultdict [(KStr "x", tensor "cpu" [1; 2]%Z)] in
  transfer_batch_to_device py (@torch_to unit) batch "cuda:0" tt
  = (Raised (Exn "TypeError" "first argument must be callable or None"), tt)
  /\
  ~ (exists out s',
       transfer_batch_to_device py (@torch_to unit) batch "cuda:0" tt
       = (Returned out, s')).
Proof.
  split; [reflexivity|].
  intros (out & s' & H). vm_compute in H. discriminate.
Qed.


(** C10 at [[1, (2,)]] with [lambda x: [x, x]]: two calls, on 1 and on 2;
    the lists returned hold integers and stay as they are. *)
Lemma function_called_once_per_leaf_witness :
  apply_to_collection py int_ (logged twice) [] []
    (list_ [int 1; tuple [int 2]]) (tt, [])
  = (Returned (list_ [list_ [int 1; int 1]; tuple [list_ [int 2; int 2]]]),
     (tt, [int 1; int 2])).
Proof.
  destruct (@function_called_once_per_leaf unit py int_ twice [] []
              (list_ [int 1; tuple [int 2]]) tt [])
    as (calls & Hrun & _ & Hall).
  destruct (Hall _ eq_refl) as [-> _].
  exact Hrun.
Defined.

(** Nested collections are mapped all the way down, and empty collections
    come back empty. *)
Example nested_collections_mapped :
  apply_to_collection py int_ succ [] []
    (dict [(KStr "a", list_ [int 1; int 2])]) tt
  = (Returned (dict [(KStr "a", list_ [int 2; int 3])]), tt).
Proof. reflexivity. Qed.

Example empty_collections_mapped :
  apply_to_collection py int_ succ [] []
    (tuple [dict []; list_ []; tuple []]) tt
  = (Returned (tuple [dict []; list_ []; tuple []]), tt).
Proof. reflexivity. Qed.

(** With the tensor library of [torch_to], the tensors of the batch end up
    on the device asked for. *)
Example batch_on_device :
  transfer_batch_to_device py (@torch_to unit)
    (dict [(KStr "x", tensor "cpu" [1; 2]%Z);
           (KStr "y", tuple [int 3; tensor "cpu" []])]) "cuda:0" tt
  = (Returned
       (dict [(KStr "x", tensor "cuda:0" [1; 2]%Z);
              (KStr "y", tuple [int 3; tensor "cuda:0" []])]), tt).
Proof. reflexivity. Qed.
End Cases.

(** ** Further facts about the mapper *)

Lemma isinstance_type (env : classes) (d : dtype) (a b : value) :
  type_ a = type_ b -> isinstance env a d = isinstance env b d.
Proof. intros H. unfold isinstance. now rewrite H. Qed.


Lemma in_order_pure (St A B : Type) (g : A -> M St B) (h : A -> B)
  (xs : list A) (s : St) :
  Forall (fun x => g x s = (Returned (h x), s)) xs ->
  in_order g xs s (map h xs) s.
Proof.
  induction 1 as [|x xs Hx _ IH]; cbn; econstructor; eauto.
Qed.

Lemma with_children_children (data : value) :
  with_children data (children data) = data.
Proof.
  destruct data as [c p|c t|c items|c elems|c elems]; cbn; try reflexivity.
  f_equal. induction items as [|[k v] items IH]; cbn; [reflexivity|].
  now rewrite IH.
Qed.

Lemma type_with_children (data : value) (outs : list value) :
  type_ (with_children data outs) = type_ data.
Proof. now destruct data. Qed.

Lemma collection_with_children (data : value) (outs : list value) :
  is_collection (with_children data outs) = is_collection data.
Proof. now destruct data. Qed.

Lemma map_snd_combine (A B : Type) (ks : list A) (vs : list B) :
  length vs = length ks -> map snd (combine ks vs) = vs.
Proof.
  revert vs. induction ks as [|k ks IH]; intros [|v vs]; cbn; try discriminate.
  - reflexivity.
  - intros [= H]. now rewrite IH.
Qed.

Lemma children_with_children (data : value) (outs : list value) :
  is_collection data = true ->
  length outs = length (children data) ->
  children (with_children data outs) = outs.
Proof.
  destruct data as [c p|c t|c items|c elems|c elems]; cbn;
    try discriminate; try reflexivity.
  intros _ Hlen. apply map_snd_combine. now rewrite length_map in *.
Qed.

Lemma with_children_again (data : value) (outs outs' : list value) :
  length outs = length (children data) ->
  with_children (with_children data outs) outs' = with_children data outs'.
Proof.
  destruct data as [c p|c t|c items|c elems|c elems]; cbn; try reflexivity.
  intros Hlen. rewrite map_fst_combine; [reflexivity|].
  now rewrite length_map in *.
Qed.

Lemma call_args_with_children (env : classes) (data : value)
  (outs outs' : list value) :
  length outs = length (children data) ->
  call_args env (with_children data outs) outs' = call_args env data outs'.
Proof.
  destruct data as [c p|c t|c items|c elems|c elems]; cbn; try reflexivity.
  intros Hlen. rewrite map_fst_combine; [reflexivity|].
  now rewrite length_map in *.
Qed.

(** A collection rebuilt around other sub-values is rebuilt by its class
    as the original is. *)
Lemma faithful_with_children (env : classes) (data : value)
  (outs : list value) :
  is_collection data = true ->
  length outs = length (children data) ->
  faithful env data ->
  faithful env (with_children data outs).
Proof.
  intros Hcoll Hlen Hfaith outs' Hlen'.
  rewrite children_with_children in Hlen' by assumption.
  rewrite type_with_children, call_args_with_children,
    with_children_again by assumption.
  apply Hfaith. congruence.
Qed.

Lemma map_leaves_leaf (env : classes) (d : dtype) (h : value -> value)
  (data : value) :
  isinstance env data d = true -> map_leaves env d h data = h data.
Proof. intros H. destruct data; cbn in *; now rewrite H. Qed.

Lemma map_leaves_below (env : classes) (d : dtype) (h : value -> value)
  (data : value) :
  isinstance env data d = false ->
  map_leaves env d h data
  = with_children data (map (map_leaves env d h) (children data)).
Proof.
  intros H.
  destruct data as [c p|c t|c items|c elems|c elems]; cbn in *;
    rewrite H; try reflexivity.
  f_equal. induction items as [|[k v] items IH]; cbn; [reflexivity|].
  now rewrite IH.
Qed.

Lemma no_children (data : value) (x : value) :
  is_collection data = false -> In x (children data) -> False.
Proof. destruct data; cbn; try discriminate; tauto. Qed.

Section Agreement.
Variables (St : Type) (env : classes).

(** The mapper depends on the function, [*args] and [**kwargs] through the
    calls on the leaves only. *)
Lemma apply_agree_on_leaves (d : dtype) (f g : callable St)
  (a a' : list value) (k k' : list (string * value)) (data : value) :
  (forall v, In v (leaves env d data) ->
             forall s, f v a k s = g v a' k' s) ->
  forall s,
    apply_to_collection env d f a k data s
    = apply_to_collection env d g a' k' data s.
Proof.
  induction data as [data Hcoll|data Hcoll IH] using value_induction;
    intros Hagree s;
    destruct (isinstance env data d) eqn:Hleaf.
  1, 3:
    rewrite !apply_leaf by assumption; apply Hagree;
    rewrite leaves_leaf by assumption; now left.
  - now rewrite !apply_other by assumption.
  - rewrite !apply_collection by assumption.
    rewrite leaves_collection in Hagree by assumption.
    unfold bind.
    rewrite (for_each_ext (apply_to_collection env d f a k)
               (apply_to_collection env d g a' k')); [reflexivity|].
    intros x Hin s0. rewrite Forall_forall in IH. apply IH; [assumption|].
    intros v Hv. apply Hagree. apply in_flat_map. now exists x.
Qed.

(** The mapper depends on the leaf types through [isinstance] only. *)
Lemma apply_agree_on_isinstance (d1 d2 : dtype) (f : callable St)
  (a : list value) (k : list (string * value)) :
  (forall v, isinstance env v d1 = isinstance env v d2) ->
  forall data s,
    apply_to_collection env d1 f a k data s
    = apply_to_collection env d2 f a k data s.
Proof.
  intros Hsame.
  induction data as [data Hcoll|data Hcoll IH] using value_induction;
    intros s; rewrite !apply_unfold.
  - transitivity (apply_body env d2 f a k
                    (apply_to_collection env d1 f a k) data s).
    + unfold apply_body. now rewrite Hsame.
    + apply apply_body_ext. intros x Hin.
      now destruct (no_children data x Hcoll Hin).
  - transitivity (apply_body env d2 f a k
                    (apply_to_collection env d1 f a k) data s).
    + unfold apply_body. now rewrite Hsame.
    + apply apply_body_ext. intros x Hin.
      rewrite Forall_forall in IH. now apply IH.
Qed.

(** With a function that touches no state and always returns, the mapper
    computes the map over the leaves. *)
Lemma apply_pure (d : dtype) (h : value -> value) (a : list value)
  (k : list (string * value)) (data : value) :
  rebuildable env d data ->
  forall s : St,
    apply_to_collection env d (pure_function h) a k data s
    = (Returned (map_leaves env d h data), s).
Proof.
  induction data as [data Hcoll|data Hcoll IH] using value_induction;
    intros Hr s;
    destruct (isinstance env data d) eqn:Hleaf.
  1, 3:
    rewrite apply_leaf, map_leaves_leaf by assumption; reflexivity.
  - rewrite apply_other, map_leaves_below by assumption.
    now destruct data.
  - destruct (rebuildable_collection_inv Hr Hleaf Hcoll) as [Hfaith Hsub].
    assert (Hloop : in_order (apply_to_collection env d (pure_function h) a k)
                      (children data) s
                      (map (map_leaves env d h) (children data)) s).
    { apply in_order_pure. apply Forall_forall. intros x Hin.
      rewrite Forall_forall in IH, Hsub. now apply IH; [|apply Hsub]. }
    rewrite (apply_collection_returned data Hleaf Hcoll Hloop).
    rewrite Hfaith by apply length_map.
    now rewrite map_leaves_below.
Qed.

Lemma map_leaves_same (d : dtype) (data : value) :
  map_leaves env d (fun v => v) data = data.
Proof.
  induction data as [data Hcoll|data Hcoll IH] using value_induction;
    destruct (isinstance env data d) eqn:Hleaf.
  1, 3: now rewrite map_leaves_leaf.
  - rewrite map_leaves_below by assumption. now destruct data.
  - rewrite map_leaves_below by assumption.
    transitivity (with_children data (children data));
      [|apply with_children_children].
    f_equal. transitivity (map (fun v => v) (children data));
      [|apply map_id].
    apply map_ext_in. intros x Hin. rewrite Forall_forall in IH. now apply IH.
Qed.

Lemma rebuildable_map_leaves (d : dtype) (h : value -> value) (data : value) :
  (forall v, In v (leaves env d data) -> isinstance env (h v) d = true) ->
  rebuildable env d data ->
  rebuildable env d (map_leaves env d h data).
Proof.
  induction data as [data Hcoll|data Hcoll IH] using value_induction;
    intros Hh Hr;
    destruct (isinstance env data d) eqn:Hleaf.
  1, 3:
    rewrite map_leaves_leaf by assumption; apply rebuildable_leaf, Hh;
    rewrite leaves_leaf by assumption; now left.
  - rewrite map_leaves_below by assumption.
    apply rebuildable_other. now rewrite collection_with_children.
  - destruct (rebuildable_collection_inv Hr Hleaf Hcoll) as [Hfaith Hsub].
    rewrite leaves_collection in Hh by assumption.
    rewrite map_leaves_below by assumption.
    assert (Hlen : length (map (map_leaves env d h) (children data))
                   = length (children data)) by apply length_map.
    apply rebuildable_collection.
    + rewrite <- Hleaf. apply isinstance_type, type_with_children.
    + now rewrite collection_with_children.
    + now apply faithful_with_children.
    + rewrite children_with_children by assumption.
      apply Forall_map, Forall_forall. intros x Hin.
      rewrite Forall_forall in IH, Hsub. apply IH; auto.
      intros v Hv. apply Hh. apply in_flat_map. now exists x.
Qed.

Lemma map_leaves_compose (d : dtype) (h1 h2 : value -> value) (data : value) :
  (forall v, In v (leaves env d data) -> isinstance env (h1 v) d = true) ->
  map_leaves env d h2 (map_leaves env d h1 data)
  = map_leaves env d (fun v => h2 (h1 v)) data.
Proof.
  induction data as [data Hcoll|data Hcoll IH] using value_induction;
    intros Hh;
    destruct (isinstance env data d) eqn:Hleaf.
  1, 3:
    rewrite (map_leaves_leaf env d h1), (map_leaves_leaf env d _ data)
      by assumption;
    apply map_leaves_leaf, Hh; rewrite leaves_leaf by assumption; now left.
  - rewrite (map_leaves_below env d h1), (map_leaves_below env d _ data)
      by assumption.
    assert (E : forall outs, with_children data outs = data)
      by (now destruct data).
    rewrite !E. rewrite map_leaves_below by assumption. apply E.
  - rewrite leaves_collection in Hh by assumption.
    rewrite (map_leaves_below env d h1), (map_leaves_below env d _ data)
      by assumption.
    assert (Hlen : length (map (map_leaves env d h1) (children data))
                   = length (children data)) by apply length_map.
    rewrite map_leaves_below
      by (rewrite <- Hleaf; apply isinstance_type, type_with_children).
    rewrite children_with_children, with_children_again by assumption.
    f_equal. rewrite map_map. apply map_ext_in. intros x Hin.
    rewrite Forall_forall in IH. apply IH; [assumption|].
    intros v Hv. apply Hh. apply in_flat_map. now exists x.
Qed.
End Agreement.

(** ** Further properties of [apply_to_collection] *)

Section Further.
Variables (St : Type) (env : classes) (d : dtype).

(** X1: the function, [*args] and [**kwargs] matter through the calls on
    the leaves only.  Two functions, each with its own extra arguments, that
    do the same on every outermost sub-value of the leaf types give the same
    run of the mapper, in outcome and in state. *)
Theorem function_consulted_at_leaves_only (f g : callable St)
  (a a' : list value) (k k' : list (string * value)) (data : value) (s : St) :
  (forall v, In v (leaves env d data) ->
             forall s0, f v a k s0 = g v a' k' s0) ->
  apply_to_collection env d f a k data s
  = apply_to_collection env d g a' k' data s.
Proof. intros Hagree. now apply apply_agree_on_leaves. Qed.

(** X2: where nothing is of the leaf types and the collections are rebuilt
    by their classes, the mapper returns a value equal to its argument and
    leaves the state alone, whatever the function is. *)
Theorem nothing_to_map_returns_data (function : callable St)
  (args : list value) (kwargs : list (string * value)) (data : value)
  (s : St) :
  rebuildable env d data ->
  leaves env d data = [] ->
  apply_to_collection env d function args kwargs data s = (Returned data, s).
Proof.
  intros Hr Hnone.
  rewrite (@apply_agree_on_leaves St env d function
             (pure_function (fun v => v)) args args kwargs kwargs data).
  - now rewrite apply_pure, map_leaves_same.
  - rewrite Hnone. intros v [].
Qed.

(** X5: with a function that touches no state and always returns, on a
    value whose collections are rebuilt by their classes, the mapper returns
    the map over the leaves and leaves the state alone. *)
Theorem pure_function_maps_leaves (h : value -> value) (args : list value)
  (kwargs : list (string * value)) (data : value) (s : St) :
  rebuildable env d data ->
  apply_to_collection env d (pure_function h) args kwargs data s
  = (Returned (map_leaves env d h data), s).
Proof. intros Hr. now apply apply_pure. Qed.

(** X6: mapping the identity over a value whose collections are rebuilt by
    their classes returns a value equal to the argument. *)
Theorem identity_returns_data (args : list value)
  (kwargs : list (string * value)) (data : value) (s : St) :
  rebuildable env d data ->
  apply_to_collection env d (pure_function (fun v => v)) args kwargs data s
  = (Returned data, s).
Proof. intros Hr. now rewrite apply_pure, map_leaves_same. Qed.

(** X7: two passes are one.  On a value whose collections are rebuilt by
    their classes, if the first function sends the leaves of the value to
    values of the leaf types again, mapping it returns, and mapping a second
    function over the result gives what mapping their composition gives. *)
Theorem two_passes_fuse (h1 h2 : value -> value) (args : list value)
  (kwargs : list (string * value)) (data : value) (s : St) :
  rebuildable env d data ->
  (forall v, In v (leaves env d data) -> isinstance env (h1 v) d = true) ->
  exists mid,
    apply_to_collection env d (pure_function h1) args kwargs data s
    = (Returned mid, s) /\
    apply_to_collection env d (pure_function h2) args kwargs mid s
    = apply_to_collection env d (pure_function (fun v => h2 (h1 v)))
        args kwargs data s.
Proof.
  intros Hr Hh. exists (map_leaves env d h1 data).
  split; [now apply apply_pure|].
  rewrite !apply_pure; try assumption.
  - now rewrite map_leaves_compose.
  - now apply rebuildable_map_leaves.
Qed.

(** X8: the leaf types matter as a set.  Two [dtype]s that stand for the
    same types, in whatever order and with whatever repetition, as one type
    or as a tuple, give the same run of the mapper. *)
Theorem leaf_types_are_a_set (d1 d2 : dtype) (function : callable St)
  (args : list value) (kwargs : list (string * value)) (data : value)
  (s : St) :
  (forall t, In t (types_of d1) <-> In t (types_of d2)) ->
  apply_to_collection env d1 function args kwargs data s
  = apply_to_collection env d2 function args kwargs data s.
Proof.
  intros Hset. apply apply_agree_on_isinstance. intros v.
  assert (E : forall d0,
             isinstance env v d0
             = existsb (issubclass env (type_ v)) (types_of d0)).
  { intros [t|ts]; cbn; [now rewrite Bool.orb_false_r|reflexivity]. }
  rewrite !E.
  destruct (existsb (issubclass env (type_ v)) (types_of d1)) eqn:E1;
    destruct (existsb (issubclass env (type_ v)) (types_of d2)) eqn:E2;
    try reflexivity.
  - apply existsb_exists in E1 as (t & Hin & Ht).
    apply Hset in Hin.
    assert (existsb (issubclass env (type_ v)) (types_of d2) = true)
      by (apply existsb_exists; eauto).
    congruence.
  - apply existsb_exists in E2 as (t & Hin & Ht).
    apply Hset in Hin.
    assert (existsb (issubclass env (type_ v)) (types_of d1) = true)
      by (apply existsb_exists; eauto).
    congruence.
Qed.
End Further.

Section Effects.
Variables (St : Type) (env : classes) (d : dtype) (function : callable St).
Variables (args : list value) (kwargs : list (string * value)).

Local Abbreviation apply := (apply_to_collection env d function args kwargs).
Local Abbreviation call := (fun v : value => function v args kwargs).

Lemma invariant_in_loop (Inv : St -> Prop) (xs : list value) :
  Forall (fun x => forall s, Inv s -> Inv (snd (apply x s))) xs ->
  forall s, Inv s -> Inv (snd (for_each apply xs s)).
Proof.
  induction 1 as [|x xs Hx _ IH]; intros s Hs; cbn; [assumption|].
  unfold bind. specialize (Hx s Hs).
  destruct (apply x s) as [[y|e] s1]; cbn in Hx |- *; [|assumption].
  specialize (IH s1 Hx).
  destruct (for_each apply xs s1) as [[ys|e] s2]; cbn in IH |- *; assumption.
Qed.

(** X3: the mapper touches the state through the function only.  Whatever
    holds of the state before and is kept by every call of the function on a
    value of the leaf types holds after the mapper, whether it returns or
    raises. *)
Theorem state_invariant_preserved (Inv : St -> Prop) (data : value) (s : St) :
  (forall v s0,
     isinstance env v d = true ->
     Inv s0 -> Inv (snd (function v args kwargs s0))) ->
  Inv s ->
  Inv (snd (apply data s)).
Proof.
  intros Hfun. revert s.
  induction data as [data Hcoll|data Hcoll IH] using value_induction;
    intros s Hs;
    destruct (isinstance env data d) eqn:Hleaf.
  1, 3: rewrite apply_leaf by assumption; now apply Hfun.
  - now rewrite apply_other by assumption.
  - rewrite apply_collection by assumption. unfold bind.
    pose proof (invariant_in_loop Inv IH s Hs) as Hloop.
    now destruct (for_each apply (children data) s) as [[outs|e] s1].
Qed.


End Effects.

(** ** Further properties of [transfer_batch_to_device] *)

Section TransferFurther.
Variables (St : Type) (env : classes).

(** X9: the tensor library is asked for non-blocking transfers to the given
    device, of the outermost tensors of the batch, and for nothing else.  Two
    libraries that answer those requests alike give the same run. *)
Theorem transfer_requests_non_blocking_only
  (tensor_to tensor_to' : value -> device -> bool -> M St value)
  (batch : value) (dev : device) (s : St) :
  (forall tensor,
     In tensor (leaves env (OneType "Tensor") batch) ->
     forall s0, tensor_to tensor dev true s0 = tensor_to' tensor dev true s0) ->
  transfer_batch_to_device env tensor_to batch dev s
  = transfer_batch_to_device env tensor_to' batch dev s.
Proof.
  intros Hsame. unfold transfer_batch_to_device.
  apply apply_agree_on_leaves. exact Hsame.
Qed.

(** X10: a batch without tensors, its collections rebuilt by their classes,
    comes back equal; no transfer is requested and the state is left
    alone. *)
Theorem batch_without_tensors_unchanged
  (tensor_to : value -> device -> bool -> M St value)
  (batch : value) (dev : device) (s : St) :
  rebuildable env (OneType "Tensor") batch ->
  leaves env (OneType "Tensor") batch = [] ->
  transfer_batch_to_device env tensor_to batch dev s = (Returned batch, s).
Proof.
  intros Hr Hnone. unfold transfer_batch_to_device.
  rewrite (@apply_agree_on_leaves St env (OneType "Tensor")
             (to tensor_to dev) (pure_function (fun v => v))
             [] [] [] [] batch).
  - now rewrite apply_pure, map_leaves_same.
  - rewrite Hnone. intros v [].
Qed.
End TransferFurther.

(** ** The further properties at work *)

Module FurtherCases.
Import Python Samples PythonFacts.

Local Abbreviation int_ := (OneType "int").
Local Abbreviation Tensor := (OneType "Tensor").

(** [lambda x: x + 1] where it is given an integer, [None] elsewhere. *)
Definition succ_or_none : callable unit :=
  fun x _ _ =>
    match x with
    | PyObj _ (PInt n) => ret (int (n + 1))
    | _ => ret none
    end.

(** A function that returns its argument and counts its calls by two. *)
Definition count_by_two : callable nat :=
  fun x _ _ n => (Returned x, n + 2).

(** [g] on the integers, as a function on values. *)
Definition on_ints (g : Z -> Z) (x : value) : value :=
  match x with
  | PyObj _ (PInt n) => int (g n)
  | _ => x
  end.

(** A tensor library that refuses blocking transfers. *)
Definition non_blocking_only (tensor : value) (dev : device)
  (non_blocking : bool) : M unit value :=
  if non_blocking then torch_to tensor dev non_blocking
  else pure_call (Raised (Exn "RuntimeError" "blocking transfer")).

Ltac distinct_keys := repeat constructor; cbn; intuition discriminate.

Ltac rebuilt :=
  repeat first
    [ apply Forall_nil
    | apply Forall_cons
    | apply rebuildable_leaf; reflexivity
    | apply rebuildable_other; reflexivity
    | apply rebuildable_collection;
      [ reflexivity
      | reflexivity
      | first [ apply dict_faithful; distinct_keys
              | apply list_faithful
              | apply tuple_faithful
              | apply Point_faithful ]
      | cbn ] ].

Lemma function_consulted_at_leaves_only_witness :
  let data := list_ [int 1; str "a"] in
  apply_to_collection py int_ succ [] [] data tt
  = apply_to_collection py int_ succ_or_none [int 7] [("k", none)] data tt.
Proof.
  apply (@function_consulted_at_leaves_only unit py int_ succ succ_or_none
           [] [int 7] [] [("k", none)] (list_ [int 1; str "a"]) tt).
  intros v Hv s0. cbn in Hv. destruct Hv as [<-|[]]. reflexivity.
Defined.

Lemma nothing_to_map_returns_data_witness :
  let data := list_ [str "a"; tuple [none]] in
  leaves py int_ data = [] /\
  apply_to_collection py int_ refuse [] [] data tt = (Returned data, tt).
Proof.
  split; [reflexivity|].
  apply (@nothing_to_map_returns_data unit py int_ refuse [] []
           (list_ [str "a"; tuple [none]]) tt).
  - rebuilt.
  - reflexivity.
Defined.

Lemma state_invariant_preserved_witness :
  let data := list_ [int 1; tuple [int 2]] in
  Nat.even 0 = true /\
  Nat.even (snd (apply_to_collection py int_ count_by_two [] [] data 0))
  = true.
Proof.
  split; [reflexivity|].
  apply (@state_invariant_preserved nat py int_ count_by_two [] []
           (fun n => Nat.even n = true)
           (list_ [int 1; tuple [int 2]]) 0).
  - intros v s0 _ H. cbn. rewrite Nat.add_comm. exact H.
  - reflexivity.
Defined.


Lemma pure_function_maps_leaves_witness :
  apply_to_collection py int_ (pure_function (on_ints (fun n => n + 1)%Z))
    [] [] (dict [(KStr "a", list_ [int 1; int 2])]) tt
  = (Returned (dict [(KStr "a", list_ [int 2; int 3])]), tt).
Proof.
  apply (@pure_function_maps_leaves unit py int_
           (on_ints (fun n => n + 1)%Z) [] []
           (dict [(KStr "a", list_ [int 1; int 2])]) tt).
  rebuilt.
Defined.

Lemma identity_returns_data_witness :
  let data := tuple [Point (int 1) (str "p"); dict [(KInt 3, list_ [])]] in
  apply_to_collection py int_ (pure_function (fun v => v)) [] [] data tt
  = (Returned data, tt).
Proof.
  apply (@identity_returns_data unit py int_ [] []
           (tuple [Point (int 1) (str "p"); dict [(KInt 3, list_ [])]]) tt).
  rebuilt.
Defined.

Lemma two_passes_fuse_witness :
  let data := list_ [int 1; tuple [int 2; str "x"]] in
  let h1 := on_ints (fun n => n + 1)%Z in
  let h2 := on_ints (fun n => n * 2)%Z in
  exists mid,
    apply_to_collection py int_ (pure_function h1) [] [] data tt
    = (Returned mid, tt) /\
    apply_to_collection py int_ (pure_function h2) [] [] mid tt
    = apply_to_collection py int_ (pure_function (fun v => h2 (h1 v)))
        [] [] data tt.
Proof.
  apply (@two_passes_fuse unit py int_
           (on_ints (fun n => n + 1)%Z) (on_ints (fun n => n * 2)%Z) [] []
           (list_ [int 1; tuple [int 2; str "x"]]) tt).
  - rebuilt.
  - intros v Hv. cbn in Hv. destruct Hv as [<-|[<-|[]]]; reflexivity.
Defined.

Lemma leaf_types_are_a_set_witness :
  let data := list_ [int 1; str "a"; none] in
  apply_to_collection py (TypeTuple ["int"; "str"; "int"]) twice [] [] data tt
  = apply_to_collection py (TypeTuple ["str"; "int"]) twice [] [] data tt.
Proof.
  apply (@leaf_types_are_a_set unit py
           (TypeTuple ["int"; "str"; "int"]) (TypeTuple ["str"; "int"])
           twice [] [] (list_ [int 1; str "a"; none]) tt).
  intros t. cbn. tauto.
Defined.

Lemma transfer_requests_non_blocking_only_witness :
  let batch := list_ [tensor "cpu" [1]%Z; dict [(KStr "x", tensor "cpu" [])]] in
  transfer_batch_to_device py (@torch_to unit) batch "cuda:0" tt
  = transfer_batch_to_device py non_blocking_only batch "cuda:0" tt.
Proof.
  apply (@transfer_requests_non_blocking_only unit py
           (@torch_to unit) non_blocking_only
           (list_ [tensor "cpu" [1]%Z; dict [(KStr "x", tensor "cpu" [])]])
           "cuda:0" tt).
  intros t _ s0. reflexivity.
Defined.

Lemma batch_without_tensors_unchanged_witness :
  let batch := dict [(KStr "a", list_ [int 1; str "x"]); (KStr "b", none)] in
  leaves py Tensor batch = [] /\
  transfer_batch_to_device py (@torch_to unit) batch "cuda:0" tt
  = (Returned batch, tt).
Proof.
  split; [reflexivity|].
  apply (@batch_without_tensors_unchanged unit py (@torch_to unit)
           (dict [(KStr "a", list_ [int 1; str "x"]); (KStr "b", none)])
           "cuda:0" tt).
  - rebuilt.
  - reflexivity.
Defined.
End FurtherCases.
